(** * Arasan: the static evaluator's public surface

    A shallow embedding of [src/scoring.h] (class [Scoring]: the
    [Scores] triple, [mateScore], [outpost_defenders], the cached
    records and the sizes of their tables) and of [src/rockstar.cpp]
    (the tuner's wrapper around the Rock* optimizer).

    Conventions.
    - [score_t] is the engine's signed integer score type, an [int] of
      32 bits.  A score is carried as a [Z]; the arithmetic of [blend]
      wraps around at 32 bits, as the machine code does ([wrap32] is
      written at each operation), and the division of C++ on integers
      truncates towards zero and is [Z.quot] (written [÷]).
    - [hash_t] and [Bitboard] are unsigned 64 bit words, carried as [Z].
    - A C++ [int] that is used as a truth value is kept as a [Z] that is
      [0] or [1]; a C++ [bool] is a [bool].
    - The field [end] of [Scores] is spelled [end_], as [end] is a
      reserved word. *)

From Stdlib Require Import ZArith Zdivisibility Lia Bool Floats.
From stdpp Require Import base option list.

Local Open Scope Z_scope.

Definition score_t := Z.
Definition hash_t := Z.
Definition Bitboard := Z.
Definition Square := Z.
Definition byte := Z.

Inductive ColorType := White | Black.

#[global] Instance ColorType_eq_dec : EqDecision ColorType.
Proof. solve_decision. Defined.

(** Modelled from the spec: [Bitboard::bitCountOpt], a member of a header
    that is not among the sources: the count of the bits that are set
    in the 64 bit mask (section 9). *)
Fixpoint bitCount_pos (p : positive) : Z :=
  match p with
  | xH => 1
  | xO q => bitCount_pos q
  | xI q => 1 + bitCount_pos q
  end.

Definition bitCountOpt (b : Bitboard) : Z :=
  match b with Zpos p => bitCount_pos p | _ => 0 end.

(** The same count on [N], for the results of the bit operations. *)
Definition bitCount_N (n : N) : Z :=
  match n with N0 => 0 | Npos p => bitCount_pos p end.

(** The value that a signed 32 bit [int] holds after an operation whose
    exact result is [z]: [z] again when it is in range, and [z] modulo
    2^32, taken from -2^31 on, when it is not. *)
Definition wrap32 (z : Z) : Z := (z + 2 ^ 31) mod 2 ^ 32 - 2 ^ 31.

(** ** Scores: the (mid, end, any) triple of scoring.h *)

Module Scores.

Record t := mk { mid : score_t; end_ : score_t; any : score_t }.

(** [Scores()] *)
Definition zero : t := mk 0 0 0.

(** [Scores(const Scores &s)] *)
Definition copy (s : t) : t := mk (mid s) (end_ s) (any s).

(** [Params::MATERIAL_SCALE] is a table of params.h, which is not among
    the sources; it is an argument here.  A read outside of the table
    has no defined result. *)
Definition material_scale (MATERIAL_SCALE : list Z) (materialLevel : Z)
  : option Z :=
  if decide (0 <= materialLevel)
  then MATERIAL_SCALE !! Z.to_nat materialLevel
  else None.

(** [score_t blend(int materialLevel)]: the expression
    [any + mid*scale/128 + end*(128-scale)/128], each product, difference
    and sum an operation on [int]. *)
Definition blend (MATERIAL_SCALE : list Z) (s : t) (materialLevel : Z)
  : option score_t :=
  scale ← material_scale MATERIAL_SCALE materialLevel;
  Some (wrap32 (wrap32 (any s + wrap32 (mid s * scale) ÷ 128)
                + wrap32 (end_ s * wrap32 (128 - scale)) ÷ 128)).

(** [int operator == (const Scores &s) const] *)
Definition eq (this s : t) : Z :=
  Z.b2z ((mid s =? mid this) && (end_ s =? end_ this) && (any s =? any this)).

(** [int operator != (const Scores &s) const] *)
Definition ne (this s : t) : Z :=
  Z.b2z (negb (mid s =? mid this) || negb (end_ s =? end_ this)
         || negb (any s =? any this)).

End Scores.

(** ** The class [Scoring] *)

Module Scoring.

(** [static bool mateScore(score_t score)].  [Constants::INVALID_SCORE]
    and [Constants::TABLEBASE_WIN] come from a header that is not among
    the sources and are arguments. *)
Definition mateScore (INVALID_SCORE TABLEBASE_WIN : score_t) (score : score_t)
  : bool :=
  negb (score =? INVALID_SCORE)
  && ((score >=? TABLEBASE_WIN) || (score <=? - TABLEBASE_WIN)).

(** [int outpost_defenders(const Board &board, Square sq, ColorType side)].
    Of the board only [pawn_bits] is read; [Attacks::pawn_attacks] is a
    table of a header that is not among the sources.  Both are
    arguments. *)
Definition outpost_defenders
    (pawn_attacks : Square -> ColorType -> Bitboard)
    (pawn_bits : ColorType -> Bitboard)
    (sq : Square) (side : ColorType) : Z :=
  bitCountOpt (Z.land (pawn_attacks sq side) (pawn_bits side)).

(** [PAWN_HASH_SIZE] depends on the build: with [TUNE] or without. *)
Definition PAWN_HASH_SIZE (TUNE : bool) : Z :=
  if TUNE then 8096 else 16384.

Definition KING_PAWN_HASH_SIZE : Z := 8132.

(** *** The cached records (layout of the build without [TUNE]) *)

Module PawnDetail.
Definition PASSED : Z := 1.
Definition POTENTIAL_PASSER : Z := 2.
Definition CONNECTED_PASSER : Z := 4.
Definition ADJACENT_PASSER : Z := 8.
Definition BACKWARD : Z := 16.
Definition DOUBLED : Z := 32.
Definition TRIPLED : Z := 64.
Definition WEAK : Z := 128.
Definition ISOLATED : Z := 256.
Record t := mk { flags : Z; space_weight : byte; sq : Square }.
(** The constants, in the order of their declaration. *)
Definition all_flags : list Z :=
  [PASSED; POTENTIAL_PASSER; CONNECTED_PASSER; ADJACENT_PASSER; BACKWARD;
   DOUBLED; TRIPLED; WEAK; ISOLATED].
End PawnDetail.

Record PawnData := mkPawnData {
  passers : Bitboard;
  opponent_pawn_attacks : Bitboard;
  weak_pawns : Bitboard;
  weakopen : byte;
  pawn_file_mask : byte;
  passer_file_mask : byte;
  pad : byte;
  endgame_score : Z;
  midgame_score : Z;
  w_square_pawns : Z;
  b_square_pawns : Z;
  outside : Z;
  details : list PawnDetail.t
}.

Record PawnHashEntry := mkPawnHashEntry {
  hc : hash_t;
  wPawnData : PawnData;
  bPawnData : PawnData
}.

(** [const PawnData &pawnData(ColorType side) const] *)
Definition pawnData (e : PawnHashEntry) (side : ColorType) : PawnData :=
  match side with White => wPawnData e | Black => bPawnData e end.

Record KingPawnHashEntry := mkKingPawnHashEntry {
  kp_hc : hash_t;
  cover : Z;
  storm : Z;
  pawn_attacks : Z;
  king_endgame_position : Z
}.

End Scoring.

(** ** rockstar.cpp: the tuner's wrapper around the Rock* optimizer *)

Module Rockstar.

(** The arithmetic of C++ [double] that the wrapper uses, with the
    doubles that its literals denote.  Nothing below relies on a law of
    it, so that the results hold for the machine's floating point. *)
Record Arith (double : Type) := mkArith {
  d_zero : double;                      (* 0.0 *)
  d_one : double;                       (* 1.0 *)
  d_add : double -> double -> double;
  d_sub : double -> double -> double;
  d_mul : double -> double -> double;
  d_pow2 : double -> double;            (* pow(x, 2.0) *)
  d_lt : double -> double -> bool;
  d_gt : double -> double -> bool;
  lit_2 : double;                       (* 2 *)
  lit_0_05 : double;                    (* 0.05 *)
  lit_100 : double                      (* 100 *)
}.

Arguments d_zero {double}.
Arguments d_one {double}.
Arguments d_add {double}.
Arguments d_sub {double}.
Arguments d_mul {double}.
Arguments d_pow2 {double}.
Arguments d_lt {double}.
Arguments d_gt {double}.
Arguments lit_2 {double}.
Arguments lit_0_05 {double}.
Arguments lit_100 {double}.

(** [rockstar::Rockstar] of Rockstar.hpp, the optimizer proper. *)
Record Optimizer (double : Type) := mkOptimizer {
  optimizer : Type;
  optimizer_new : list double -> list double -> double -> optimizer;
  (** writes the next point to evaluate into the vector passed *)
  getNextTheta2Evaluate : optimizer -> list double -> optimizer * list double;
  setTheCostFromTheLastTheta : optimizer -> double -> optimizer
}.

Arguments optimizer {double}.
Arguments optimizer_new {double}.
Arguments getNextTheta2Evaluate {double}.
Arguments setTheCostFromTheLastTheta {double}.

Record Options (double : Type) := mkOptions {
  initial_exp : double;
  initialSd : double;
  constraint_penalty : double
}.

Arguments initial_exp {double}.
Arguments initialSd {double}.
Arguments constraint_penalty {double}.

(** The object: the members of [OptBase] that the wrapper reads, and
    the box. *)
Record t (double : Type) := mk {
  dim : Z;
  initial_theta : list double;
  eval_limit : Z;
  options : Options double;
  upper : list double;
  lower : list double
}.

Arguments dim {double}.
Arguments initial_theta {double}.
Arguments eval_limit {double}.
Arguments options {double}.
Arguments upper {double}.
Arguments lower {double}.

(** What the two function pointers and the optimizer are seen to do. *)
Inductive event (double : Type) :=
| EvFunc (theta : list double)
| EvUpdate (obj : double) (theta : list double)
| EvCost (cost : double).

Arguments EvFunc {double}.
Arguments EvUpdate {double}.
Arguments EvCost {double}.

Definition is_EvFunc {double : Type} (e : event double) : bool :=
  match e with EvFunc _ => true | _ => false end.

(** How often the objective was evaluated. *)
Definition evaluations {double : Type} (log : list (event double)) : nat :=
  length (List.filter is_EvFunc log).

Section Wrapper.
Context {double : Type} (A : Arith double) (Opt : Optimizer double).

(** [Rockstar::Rockstar(int d, const Eigen::VectorXd &x0, int eval_limit)]:
    the base class keeps [d], the setters keep [x0] and [eval_limit],
    and the body sets the three options and the box. *)
Definition new (d : Z) (x0 : list double) (eval_limit : Z) : t double :=
  mk double d x0 eval_limit
     (mkOptions double (lit_2 A) (lit_0_05 A) (lit_100 A))
     (replicate (Z.to_nat d) (d_one A))
     (replicate (Z.to_nat d) (d_zero A)).

(** [void Rockstar::setBoxConstraints(lower, upper)] *)
Definition setBoxConstraints (r : t double) (lower upper : list double)
  : t double :=
  mk double (dim r) (initial_theta r) (eval_limit r) (options r) upper lower.

(** The penalty of a point for what the constructor sets, in the words
    of its comments: "constraints are 0..1 by default", with the
    default penalty factor. *)
Definition default_box_penalty (theta : list double) : double :=
  foldl (fun acc th =>
           if d_lt A th (d_zero A) then
             d_add A acc
               (d_mul A (d_pow2 A (d_sub A (d_zero A) th)) (lit_100 A))
           else if d_gt A th (d_one A) then
             d_add A acc
               (d_mul A (d_pow2 A (d_sub A th (d_one A))) (lit_100 A))
           else acc)
        (d_zero A) theta.

Variable r : t double.
(** [func], the objective *)
Variable func : list double -> double.

(** Modelled from the spec: [OptBase::eval(theta, func, update)], a member
    of a header that is not among the sources (section 6): the objective
    is evaluated at the vector, the callback is invoked with the
    objective and the vector, and the objective is returned. *)
Definition eval (theta : list double) (log : list (event double))
  : double * list (event double) :=
  let obj := func theta in
  (obj, log ++ [EvFunc theta; EvUpdate obj theta]).

(** One round of the inner loop, at index [i]. *)
Definition penalty_step (theta : list double) (i : nat) (penalty : double)
  : option double :=
  th ← theta !! i;
  lo ← lower r !! i;
  if d_lt A th lo then
    Some (d_add A penalty
            (d_mul A (d_pow2 A (d_sub A lo th)) (constraint_penalty (options r))))
  else
    up ← upper r !! i;
    if d_gt A th up then
      Some (d_add A penalty
              (d_mul A (d_pow2 A (d_sub A th up)) (constraint_penalty (options r))))
    else Some penalty.

(** [for (int i = 0; i < dim; i++) ...], with [n] rounds left. *)
Fixpoint penalty_loop (theta : list double) (i : nat) (n : nat)
    (penalty : double) : option double :=
  match n with
  | O => Some penalty
  | S n' =>
      p ← penalty_step theta i penalty;
      penalty_loop theta (S i) n' p
  end.

(** The body of the outer loop. *)
Definition iteration (st : optimizer Opt * list double * list (event double))
  : option (optimizer Opt * list double * list (event double)) :=
  let '(opt, theta, log) := st in
  let '(opt1, theta1) := getNextTheta2Evaluate Opt opt theta in
  let '(cost, log1) := eval theta1 log in
  penalty ← penalty_loop theta1 0 (Z.to_nat (dim r)) (d_zero A);
  let cost' := d_add A cost penalty in
  Some (setTheCostFromTheLastTheta Opt opt1 cost', theta1, log1 ++ [EvCost cost']).

(** [for(int i=0; i< eval_limit; i++) ...], with [n] rounds left. *)
Fixpoint optimize_loop (n : nat)
    (st : optimizer Opt * list double * list (event double))
  : option (optimizer Opt * list double * list (event double)) :=
  match n with
  | O => Some st
  | S n' => st' ← iteration st; optimize_loop n' st'
  end.

(** [void Rockstar::optimize(func, update)] *)
Definition optimize
  : option (optimizer Opt * list double * list (event double)) :=
  let Initial_StandardDeviation :=
    (fun x => d_mul A x (initialSd (options r)))
      <$> replicate (Z.to_nat (dim r)) (d_one A) in
  let opt := optimizer_new Opt (initial_theta r) Initial_StandardDeviation
               (initial_exp (options r)) in
  optimize_loop (Z.to_nat (eval_limit r)) (opt, initial_theta r, []).

(** *** The run as specified

    What [optimize] is to do, written without the loops and their
    indexed reads, to compare [optimize] with: the rounds, the penalty
    of a point, and the cost that the optimizer is told.

    The optimizer as the loop finds it. *)
Definition initial_optimizer : optimizer Opt :=
  optimizer_new Opt (initial_theta r)
    ((fun x => d_mul A x (initialSd (options r)))
       <$> replicate (Z.to_nat (dim r)) (d_one A))
    (initial_exp (options r)).

(** "apply penalty for constraint violations": what the component at
    [i] adds when it lies outside of its interval, its squared distance
    to the interval times the penalty factor. *)
Definition violation (theta : list double) (i : nat) : option double :=
  th ← theta !! i;
  lo ← lower r !! i;
  if d_lt A th lo then
    Some (d_mul A (d_pow2 A (d_sub A lo th)) (constraint_penalty (options r)))
  else
    up ← upper r !! i;
    if d_gt A th up then
      Some (d_mul A (d_pow2 A (d_sub A th up)) (constraint_penalty (options r)))
    else None.

(** The penalty of a point: the violations of the components below
    [dim], added up from 0.0 in the order of the components. *)
Definition box_penalty (theta : list double) : double :=
  foldl (d_add A) (d_zero A)
        (omap (violation theta) (seq 0 (Z.to_nat (dim r)))).

(** No component below [dim] lies outside of its interval. *)
Definition in_box (theta : list double) : Prop :=
  forall i, (i < Z.to_nat (dim r))%nat -> violation theta i = None.

(** The reads of the penalty loop at [i] fall inside the vectors: the
    point and the lower bounds have a component [i], and so have the
    upper bounds unless the component is below its lower bound. *)
Definition read_defined (theta : list double) (i : nat) : bool :=
  match theta !! i, lower r !! i with
  | Some th, Some lo =>
      d_lt A th lo || match upper r !! i with Some _ => true | None => false end
  | _, _ => false
  end.

Definition penalty_defined (theta : list double) : bool :=
  forallb (read_defined theta) (seq 0 (Z.to_nat (dim r))).

(** The events of one round at the point [theta], for a penalty. *)
Definition round_events (penalty : list double -> double)
    (theta : list double) : list (event double) :=
  [EvFunc theta; EvUpdate (func theta) theta;
   EvCost (d_add A (func theta) (penalty theta))].

Definition rounds_log (penalty : list double -> double)
    (thetas : list (list double)) : list (event double) :=
  concat (round_events penalty <$> thetas).

(** [n] rounds from an optimizer and a point: the optimizer proposes
    the next point and is told the objective there plus the penalty.
    The result is the optimizer and the point after the last round, and
    the points of the rounds in their order. *)
Fixpoint rounds_spec (penalty : list double -> double) (n : nat)
    (opt : optimizer Opt) (theta : list double)
  : optimizer Opt * list double * list (list double) :=
  match n with
  | 0%nat => (opt, theta, [])
  | S n' =>
      let '(opt1, theta1) := getNextTheta2Evaluate Opt opt theta in
      let rest :=
        rounds_spec penalty n'
          (setTheCostFromTheLastTheta Opt opt1
             (d_add A (func theta1) (penalty theta1)))
          theta1 in
      (rest.1.1, rest.1.2, theta1 :: rest.2)
  end.

(** The reads of all [n] rounds fall inside the vectors. *)
Fixpoint run_defined (n : nat) (opt : optimizer Opt) (theta : list double)
  : bool :=
  match n with
  | 0%nat => true
  | S n' =>
      let '(opt1, theta1) := getNextTheta2Evaluate Opt opt theta in
      penalty_defined theta1
      && run_defined n'
           (setTheCostFromTheLastTheta Opt opt1
              (d_add A (func theta1) (box_penalty theta1)))
           theta1
  end.

(** The whole of [optimize]. *)
Definition optimize_spec
  : optimizer Opt * list double * list (list double) :=
  rounds_spec box_penalty (Z.to_nat (eval_limit r))
    initial_optimizer (initial_theta r).

Definition optimize_defined : bool :=
  run_defined (Z.to_nat (eval_limit r)) initial_optimizer (initial_theta r).

End Wrapper.

End Rockstar.

(** ** Ranges and table sizes *)

Definition int32_ok (z : Z) : Prop := - 2 ^ 31 <= z < 2 ^ 31.

(** No operation of [blend] overflows: the two products, the first sum
    and the result are in the range of an [int]. *)
Definition blend_in_range (s : Scores.t) (scale : Z) : Prop :=
  int32_ok (Scores.mid s * scale)
  /\ int32_ok (Scores.end_ s * (128 - scale))
  /\ int32_ok (Scores.any s + (Scores.mid s * scale) ÷ 128)
  /\ int32_ok (Scores.any s + (Scores.mid s * scale) ÷ 128
               + (Scores.end_ s * (128 - scale)) ÷ 128).

Definition is_power_of_two (n : Z) : Prop := exists k : Z, 0 <= k /\ n = 2 ^ k.

(** ** Small instances, to run the definitions on *)

Module Sample.

(** The wrapper on machine floats ([0x1.999999999999ap-5] is the double
    next to 0.05), with a stand-in for the optimizer that walks along a
    line in steps of 0.75 and adds up the costs. *)
Definition float_arith : Rockstar.Arith float :=
  Rockstar.mkArith float 0%float 1%float
    PrimFloat.add PrimFloat.sub PrimFloat.mul
    (fun x => PrimFloat.mul x x)
    PrimFloat.ltb (fun a b => PrimFloat.ltb b a)
    2%float 0x1.999999999999ap-5%float 100%float.

(** The optimizer's state is the next point and the sum of the costs it
    has been told. *)
Definition line_walk : Rockstar.Optimizer float :=
  Rockstar.mkOptimizer float (float * float)
    (fun x0 _ _ => (hd 0%float x0, 0%float))
    (fun o _ => ((PrimFloat.add o.1 0.75%float, o.2), [o.1]))
    (fun o cost => (o.1, PrimFloat.add o.2 cost)).

(** One parameter, three evaluations, the box [0.5, 1.5]. *)
Definition tuner : Rockstar.t float :=
  Rockstar.setBoxConstraints
    (Rockstar.new float_arith 1 [0.25%float] 3)
    [0.5%float] [1.5%float].

Definition objective (theta : list float) : float := hd 0%float theta.

End Sample.

(** * Theorems *)

Section ScoresFacts.
Import Scores.

Lemma b2z_nonzero (b : bool) : Z.b2z b <> 0 <-> b = true.
Proof. destruct b; simpl; split; intros; try done. Qed.

Lemma b2z_zero (b : bool) : Z.b2z b = 0 <-> b = false.
Proof. destruct b; simpl; split; intros; try done. Qed.

(** C9. [==] on [Scores] is true (non-zero) exactly when the three
    components agree, and [!=] is true exactly when [==] is false. *)
Theorem Scores_eq_ne_componentwise (a b : Scores.t) :
  (Scores.eq a b <> 0 <->
     mid a = mid b /\ end_ a = end_ b /\ any a = any b)
  /\ (Scores.ne a b <> 0 <-> Scores.eq a b = 0).
Proof.
  unfold Scores.eq, Scores.ne. rewrite !b2z_nonzero, b2z_zero. split.
  - rewrite !andb_true_iff, !Z.eqb_eq. intuition congruence.
  - destruct (mid b =? mid a), (end_ b =? end_ a), (any b =? any a);
      simpl; split; congruence.
Qed.

End ScoresFacts.

(** ** [blend] *)

Lemma wrap32_id (z : Z) : int32_ok z -> wrap32 z = z.
Proof.
  unfold int32_ok, wrap32. intros H.
  assert (2 ^ 31 = 2147483648) as E31 by reflexivity.
  assert (2 ^ 32 = 4294967296) as E32 by reflexivity.
  rewrite E31, E32 in *. rewrite Z.mod_small; lia.
Qed.

Lemma material_scale_lookup (T : list Z) (lvl scale : Z) :
  0 <= lvl -> T !! Z.to_nat lvl = Some scale ->
  Scores.material_scale T lvl = Some scale.
Proof. intros Hl Hs. unfold Scores.material_scale. by rewrite decide_True. Qed.

(** Where nothing overflows, [blend] is the exact expression. *)
Lemma blend_exact (T : list Z) (s : Scores.t) (lvl scale : Z) :
  0 <= lvl -> T !! Z.to_nat lvl = Some scale ->
  0 <= scale <= 128 ->
  blend_in_range s scale ->
  Scores.blend T s lvl
  = Some (Scores.any s + (Scores.mid s * scale) ÷ 128
          + (Scores.end_ s * (128 - scale)) ÷ 128).
Proof.
  intros Hl Hlook Hs (H1 & H2 & H3 & H4). unfold Scores.blend.
  rewrite (material_scale_lookup T lvl scale Hl Hlook). simpl. f_equal.
  rewrite (wrap32_id (128 - scale)) by (unfold int32_ok; simpl; lia).
  rewrite (wrap32_id _ H1), (wrap32_id _ H2), (wrap32_id _ H3).
  by apply wrap32_id.
Qed.

(** Components below 2^23 in magnitude keep every operation in range. *)
Lemma blend_in_range_small (s : Scores.t) (scale : Z) :
  0 <= scale <= 128 ->
  Z.abs (Scores.mid s) < 2 ^ 23 ->
  Z.abs (Scores.end_ s) < 2 ^ 23 ->
  Z.abs (Scores.any s) < 2 ^ 23 ->
  blend_in_range s scale.
Proof.
  intros Hs Hm He Ha. unfold blend_in_range.
  destruct s as [m e a]; simpl in *.
  assert (2 ^ 23 = 8388608) as E23 by reflexivity.
  assert (2 ^ 31 = 2147483648) as E31 by reflexivity.
  rewrite E23 in *.
  pose proof (Z.quot_rem' (m * scale) 128) as Hqm.
  pose proof (Z.quot_rem' (e * (128 - scale)) 128) as Hqe.
  pose proof (Z.rem_bound_abs (m * scale) 128 ltac:(lia)) as Hmb.
  pose proof (Z.rem_bound_abs (e * (128 - scale)) 128 ltac:(lia)) as Heb.
  unfold int32_ok. rewrite E31. nia.
Qed.

(** C2, as stated, fails: at scale 128 the product [mid * 128] of a
    [mid] of 2^24 does not fit an [int], and the blend is -2^24 where
    [any + mid] is 2^24. *)
Lemma blend_formula_counterexample :
  Scores.blend [128] (Scores.mk 16777216 0 0) 0 = Some (-16777216)
  /\ Scores.any (Scores.mk 16777216 0 0) + Scores.mid (Scores.mk 16777216 0 0)
     = 16777216.
Proof. split; reflexivity. Qed.

(** C2, amended. For every triple and every material level inside the
    table, with [scale] the table's entry at the level, which lies in
    [0,128] when the table's entries do: if no operation overflows,
    [blend] is [any + mid*scale/128 + end*(128-scale)/128]; it is
    [any + mid] at scale 128 and [any + end] at scale 0. *)
Theorem blend_formula (MATERIAL_SCALE : list Z) (s : Scores.t)
    (materialLevel scale : Z) :
  Forall (fun x => 0 <= x <= 128) MATERIAL_SCALE ->
  0 <= materialLevel ->
  MATERIAL_SCALE !! Z.to_nat materialLevel = Some scale ->
  blend_in_range s scale ->
  0 <= scale <= 128
  /\ Scores.blend MATERIAL_SCALE s materialLevel
     = Some (Scores.any s + (Scores.mid s * scale) ÷ 128
             + (Scores.end_ s * (128 - scale)) ÷ 128)
  /\ (scale = 128 ->
      Scores.blend MATERIAL_SCALE s materialLevel
      = Some (Scores.any s + Scores.mid s))
  /\ (scale = 0 ->
      Scores.blend MATERIAL_SCALE s materialLevel
      = Some (Scores.any s + Scores.end_ s)).
Proof.
  intros Hall Hl Hlook Hr.
  assert (0 <= scale <= 128) as Hs.
  { rewrite Forall_forall in Hall. apply Hall.
    by eapply list_elem_of_lookup_2. }
  split; [exact Hs|].
  rewrite (blend_exact MATERIAL_SCALE s materialLevel scale Hl Hlook Hs Hr).
  split; [done|]. split.
  - intros ->. f_equal. rewrite Z.quot_mul by lia.
    replace (128 - 128) with 0 by lia. rewrite Z.mul_0_r.
    change (0 ÷ 128) with 0. lia.
  - intros ->. f_equal. rewrite Z.mul_0_r. change (0 ÷ 128) with 0.
    rewrite Z.sub_0_r, Z.quot_mul by lia. lia.
Qed.

Lemma blend_formula_witness :
  Scores.blend [0; 3; 64; 128] (Scores.mk 37 (-12) 5) 2 = Some 17.
Proof.
  destruct (blend_formula [0; 3; 64; 128] (Scores.mk 37 (-12) 5) 2 64)
    as (_ & H & _).
  - repeat constructor; lia.
  - lia.
  - reflexivity.
  - unfold blend_in_range, int32_ok.
    repeat split; vm_compute; first [reflexivity | discriminate].
  - exact H.
Defined.

(** A level outside of the table has no blend. *)
Lemma blend_outside_table (T : list Z) (s : Scores.t) (lvl : Z) :
  lvl < 0 \/ Z.of_nat (length T) <= lvl -> Scores.blend T s lvl = None.
Proof.
  intros H. unfold Scores.blend, Scores.material_scale.
  case_decide; [|done].
  rewrite (lookup_ge_None_2 T (Z.to_nat lvl)) by lia. done.
Qed.

(** Truncation is towards zero, also for a negative product. *)
Example blend_truncates :
  Scores.blend [0; 32; 64; 96; 128] (Scores.mk (-1) 1 0) 2 = Some 0
  /\ Scores.blend [0; 32; 64; 96; 128] (Scores.mk (-3) 0 10) 3 = Some 8.
Proof. split; reflexivity. Qed.

(** X6. With components below 2^23 in magnitude every intermediate value
    of [blend] is a 32 bit integer, so that [Z] is exact for it. *)
Lemma blend_fits_int32 (s : Scores.t) (scale : Z) :
  0 <= scale <= 128 ->
  Z.abs (Scores.mid s) < 2 ^ 23 ->
  Z.abs (Scores.end_ s) < 2 ^ 23 ->
  Z.abs (Scores.any s) < 2 ^ 23 ->
  int32_ok (Scores.mid s * scale)
  /\ int32_ok (Scores.end_ s * (128 - scale))
  /\ int32_ok (Scores.any s + (Scores.mid s * scale) ÷ 128)
  /\ int32_ok (Scores.any s + (Scores.mid s * scale) ÷ 128
               + (Scores.end_ s * (128 - scale)) ÷ 128).
Proof.
  intros Hs Hm He Ha. destruct s as [m e a]; simpl in *.
  assert (2 ^ 23 = 8388608) as E23 by reflexivity.
  assert (2 ^ 31 = 2147483648) as E31 by reflexivity.
  rewrite E23 in *.
  pose proof (Z.quot_rem' (m * scale) 128) as Hqm.
  pose proof (Z.quot_rem' (e * (128 - scale)) 128) as Hqe.
  pose proof (Z.rem_bound_abs (m * scale) 128 ltac:(lia)) as Hmb.
  pose proof (Z.rem_bound_abs (e * (128 - scale)) 128 ltac:(lia)) as Heb.
  unfold int32_ok. rewrite E31. nia.
Qed.

(** ** [mateScore] *)

(** C10. [mateScore] holds exactly of the scores other than
    [INVALID_SCORE] that are at least [TABLEBASE_WIN] or at most its
    negation; it never holds of [INVALID_SCORE]. *)
Theorem mateScore_iff (INVALID_SCORE TABLEBASE_WIN score : score_t) :
  (Scoring.mateScore INVALID_SCORE TABLEBASE_WIN score = true <->
     score <> INVALID_SCORE
     /\ (score >= TABLEBASE_WIN \/ score <= - TABLEBASE_WIN))
  /\ Scoring.mateScore INVALID_SCORE TABLEBASE_WIN INVALID_SCORE = false.
Proof.
  unfold Scoring.mateScore. split.
  - rewrite andb_true_iff, orb_true_iff, negb_true_iff, Z.eqb_neq,
      Z.geb_le, Z.leb_le. lia.
  - by rewrite Z.eqb_refl.
Qed.

Example mateScore_samples :
  Scoring.mateScore (-32767) 31000 31500 = true
  /\ Scoring.mateScore (-32767) 31000 (-31000) = true
  /\ Scoring.mateScore (-32767) 31000 250 = false
  /\ Scoring.mateScore (-32767) 31000 (-32767) = false.
Proof. repeat split. Qed.

(** ** The sizes of the two tables *)

Lemma not_power_of_two_between (n k0 : Z) :
  0 <= k0 -> 2 ^ k0 < n < 2 ^ (k0 + 1) -> ~ is_power_of_two n.
Proof.
  intros Hk0 Hn (k & Hk & ->).
  destruct (Z_le_gt_dec k k0) as [Hle | Hgt].
  - pose proof (Z.pow_le_mono_r 2 k k0 ltac:(lia) Hle). lia.
  - pose proof (Z.pow_le_mono_r 2 (k0 + 1) k ltac:(lia) ltac:(lia)). lia.
Qed.

Lemma not_prime_even (n : Z) : 2 < n -> (2 | n) -> ~ Z.prime n.
Proof. intros Hn Hdiv [_ Hp]. apply (Hp 2); [lia | exact Hdiv]. Qed.

(** C7, as stated, fails: 8132 is neither a power of two nor a prime. *)
Lemma KING_PAWN_HASH_SIZE_counterexample :
  ~ is_power_of_two Scoring.KING_PAWN_HASH_SIZE
  /\ ~ Z.prime Scoring.KING_PAWN_HASH_SIZE.
Proof.
  split.
  - apply (not_power_of_two_between _ 12); [lia|].
    unfold Scoring.KING_PAWN_HASH_SIZE. simpl. lia.
  - apply not_prime_even; [done|].
    exists 4066. reflexivity.
Qed.

(** C7, amended. The pawn table of the build without [TUNE] has
    2^14 slots.  The pawn table of the [TUNE] build has 8096 = 2^5 * 11 * 23
    slots and each king table 8132 = 2^2 * 19 * 107: neither size is a
    power of two or a prime.  Every size is positive, and the slot
    [fingerprint mod size] lies in the table. *)
Theorem hash_table_sizes :
  (Scoring.PAWN_HASH_SIZE false = 2 ^ 14
   /\ is_power_of_two (Scoring.PAWN_HASH_SIZE false))
  /\ (Scoring.PAWN_HASH_SIZE true = 2 ^ 5 * 11 * 23
      /\ ~ is_power_of_two (Scoring.PAWN_HASH_SIZE true)
      /\ ~ Z.prime (Scoring.PAWN_HASH_SIZE true))
  /\ (Scoring.KING_PAWN_HASH_SIZE = 2 ^ 2 * 19 * 107
      /\ ~ is_power_of_two Scoring.KING_PAWN_HASH_SIZE
      /\ ~ Z.prime Scoring.KING_PAWN_HASH_SIZE)
  /\ (forall (TUNE : bool) (h : hash_t),
        0 <= h mod Scoring.PAWN_HASH_SIZE TUNE < Scoring.PAWN_HASH_SIZE TUNE)
  /\ (forall h : hash_t,
        0 <= h mod Scoring.KING_PAWN_HASH_SIZE < Scoring.KING_PAWN_HASH_SIZE).
Proof.
  repeat split.
  - exists 14. split; [lia | reflexivity].
  - apply (not_power_of_two_between _ 12); [lia|].
    unfold Scoring.PAWN_HASH_SIZE. simpl. lia.
  - apply not_prime_even; [done|]. exists 4048. reflexivity.
  - apply (not_power_of_two_between _ 12); [lia|].
    unfold Scoring.KING_PAWN_HASH_SIZE. simpl. lia.
  - apply not_prime_even; [done|]. exists 4066. reflexivity.
  - apply Z.mod_pos_bound. by destruct TUNE.
  - apply Z.mod_pos_bound. by destruct TUNE.
  - by apply Z.mod_pos_bound.
  - by apply Z.mod_pos_bound.
Qed.

(** ** [Rockstar::optimize] *)

Section RockstarFacts.
Import Rockstar.
Context {double : Type} (A : Arith double) (Opt : Optimizer double).
Variable r : Rockstar.t double.
Variable func : list double -> double.

(** One round of the inner loop: undefined when a read falls outside,
    and else the violation of the component added, if there is one. *)
Lemma penalty_step_read (theta : list double) (i : nat) (acc : double) :
  penalty_step A r theta i acc
  = if read_defined A r theta i
    then Some (match violation A r theta i with
               | Some p => d_add A acc p
               | None => acc
               end)
    else None.
Proof.
  unfold penalty_step, read_defined, violation.
  destruct (theta !! i) as [th|]; [|done].
  destruct (lower r !! i) as [lo|]; [|done]. simpl.
  destruct (d_lt A th lo); [done|]. simpl.
  destruct (upper r !! i) as [up|]; [|done]. simpl.
  by destruct (d_gt A th up).
Qed.

Lemma penalty_loop_spec (theta : list double) (n i : nat) (acc : double) :
  penalty_loop A r theta i n acc
  = if forallb (read_defined A r theta) (seq i n)
    then Some (foldl (d_add A) acc (omap (violation A r theta) (seq i n)))
    else None.
Proof.
  revert i acc. induction n as [|n IH]; intros i acc; [done|].
  cbn [penalty_loop seq forallb]. rewrite penalty_step_read.
  destruct (read_defined A r theta i); [|done].
  cbn [mbind option_bind andb]. rewrite IH.
  destruct (forallb (read_defined A r theta) (seq (S i) n)); [|done].
  cbn [omap list_omap]. by destruct (violation A r theta i).
Qed.

Lemma penalty_loop_box_penalty (theta : list double) :
  penalty_loop A r theta 0 (Z.to_nat (dim r)) (d_zero A)
  = if penalty_defined A r theta then Some (box_penalty A r theta) else None.
Proof. apply penalty_loop_spec. Qed.

(** Within the box nothing is added. *)
Lemma box_penalty_in_box (theta : list double) :
  in_box A r theta -> box_penalty A r theta = d_zero A.
Proof.
  unfold in_box, box_penalty. intros Hin.
  assert (forall l, Forall (fun i => (i < Z.to_nat (dim r))%nat) l ->
                    omap (violation A r theta) l = []) as Hnil.
  { intros l Hl. induction Hl as [|i l Hi Hl IH]; [done|].
    cbn [omap list_omap]. by rewrite (Hin i Hi). }
  rewrite Hnil; [done|].
  apply Forall_forall. intros i Hi%elem_of_seq. lia.
Qed.

(** The body of the outer loop. *)
Lemma iteration_spec (opt : optimizer Opt) (theta : list double)
    (log : list (event double)) :
  iteration A Opt r func (opt, theta, log)
  = (if penalty_defined A r (getNextTheta2Evaluate Opt opt theta).2
     then Some (setTheCostFromTheLastTheta Opt
                  (getNextTheta2Evaluate Opt opt theta).1
                  (d_add A (func (getNextTheta2Evaluate Opt opt theta).2)
                     (box_penalty A r (getNextTheta2Evaluate Opt opt theta).2)),
                (getNextTheta2Evaluate Opt opt theta).2,
                log ++ round_events A func (box_penalty A r)
                         (getNextTheta2Evaluate Opt opt theta).2)
     else None).
Proof.
  unfold iteration, eval.
  destruct (getNextTheta2Evaluate Opt opt theta) as [opt1 theta1].
  cbn [fst snd]. rewrite penalty_loop_box_penalty.
  destruct (penalty_defined A r theta1); [|done].
  cbn [mbind option_bind]. unfold round_events.
  by rewrite <- app_assoc.
Qed.

(** The outer loop: undefined when a read of one of its rounds falls
    outside, and else the rounds of [rounds_spec]. *)
Lemma optimize_loop_spec (n : nat) (opt : optimizer Opt)
    (theta : list double) (log : list (event double)) :
  optimize_loop A Opt r func n (opt, theta, log)
  = if run_defined A Opt r func n opt theta
    then Some ((rounds_spec A Opt func (box_penalty A r) n opt theta).1.1,
               (rounds_spec A Opt func (box_penalty A r) n opt theta).1.2,
               log ++ rounds_log A func (box_penalty A r)
                        (rounds_spec A Opt func (box_penalty A r) n opt theta).2)
    else None.
Proof.
  revert opt theta log. induction n as [|n IH]; intros opt theta log.
  { cbn. by rewrite app_nil_r. }
  cbn [optimize_loop run_defined rounds_spec]. rewrite iteration_spec.
  destruct (getNextTheta2Evaluate Opt opt theta) as [opt1 theta1].
  cbn [fst snd].
  destruct (penalty_defined A r theta1); [|done].
  cbn [mbind option_bind andb]. rewrite IH.
  destruct (run_defined A Opt r func n _ theta1); [|done].
  cbn [fst snd]. unfold rounds_log. cbn [fmap list_fmap concat].
  by rewrite <- app_assoc.
Qed.

Lemma rounds_spec_length (penalty : list double -> double) (n : nat)
    (opt : optimizer Opt) (theta : list double) :
  length (rounds_spec A Opt func penalty n opt theta).2 = n.
Proof.
  revert opt theta. induction n as [|n IH]; intros opt theta; [done|].
  cbn [rounds_spec].
  destruct (getNextTheta2Evaluate Opt opt theta) as [opt1 theta1].
  cbn [snd length]. by rewrite IH.
Qed.

Lemma evaluations_rounds (penalty : list double -> double)
    (thetas : list (list double)) :
  evaluations (rounds_log A func penalty thetas) = length thetas.
Proof.
  unfold evaluations, rounds_log.
  induction thetas as [|th thetas IH]; [done|].
  cbn [fmap list_fmap concat]. rewrite List.filter_app, length_app, IH.
  done.
Qed.

(** [optimize] is the run of [optimize_spec] when all reads fall inside
    the vectors, and has no result when one does not. *)
Lemma optimize_spec_eq :
  optimize A Opt r func
  = if optimize_defined A Opt r func
    then Some ((optimize_spec A Opt r func).1.1,
               (optimize_spec A Opt r func).1.2,
               rounds_log A func (box_penalty A r)
                 (optimize_spec A Opt r func).2)
    else None.
Proof.
  unfold optimize, optimize_defined, optimize_spec, initial_optimizer.
  by rewrite optimize_loop_spec.
Qed.

(** C8, amended. With a limit that is not negative, in a run whose
    reads of the point and of the bounds all fall inside the vectors,
    [optimize] makes [eval_limit] rounds: the optimizer proposes a
    point, the objective is evaluated there, the callback receives the
    objective and the point, and the optimizer is told the objective
    plus the penalty, which is the sum over the components outside of
    their interval of the squared distance times [constraint_penalty]
    and is the initial zero when the point is in the box.  The
    objective is evaluated [eval_limit] times. *)
Theorem optimize_trace :
  0 <= eval_limit r ->
  optimize_defined A Opt r func = true ->
  optimize A Opt r func
  = Some ((optimize_spec A Opt r func).1.1,
          (optimize_spec A Opt r func).1.2,
          rounds_log A func (box_penalty A r) (optimize_spec A Opt r func).2)
  /\ Z.of_nat (length (optimize_spec A Opt r func).2) = eval_limit r
  /\ Z.of_nat (evaluations
                 (rounds_log A func (box_penalty A r)
                    (optimize_spec A Opt r func).2))
     = eval_limit r
  /\ (forall theta, in_box A r theta -> box_penalty A r theta = d_zero A).
Proof.
  intros Hlimit Hdef. rewrite optimize_spec_eq, Hdef.
  split; [done|].
  rewrite evaluations_rounds. unfold optimize_spec.
  rewrite rounds_spec_length.
  repeat split; try lia. apply box_penalty_in_box.
Qed.

(** Vectors of at least [dim] components keep all reads inside. *)
Lemma penalty_defined_sized (theta : list double) :
  (Z.to_nat (dim r) <= length theta)%nat ->
  (Z.to_nat (dim r) <= length (lower r))%nat ->
  (Z.to_nat (dim r) <= length (upper r))%nat ->
  penalty_defined A r theta = true.
Proof.
  intros Ht Hl Hu. unfold penalty_defined. apply forallb_forall.
  intros i Hi%in_seq. unfold read_defined.
  destruct (lookup_lt_is_Some_2 theta i ltac:(lia)) as [th ->].
  destruct (lookup_lt_is_Some_2 (lower r) i ltac:(lia)) as [lo ->].
  destruct (lookup_lt_is_Some_2 (upper r) i ltac:(lia)) as [up ->].
  apply orb_true_r.
Qed.

Lemma run_defined_sized (n : nat) (opt : optimizer Opt) (theta : list double) :
  (Z.to_nat (dim r) <= length (lower r))%nat ->
  (Z.to_nat (dim r) <= length (upper r))%nat ->
  (forall opt th,
     (Z.to_nat (dim r) <= length (getNextTheta2Evaluate Opt opt th).2)%nat) ->
  run_defined A Opt r func n opt theta = true.
Proof.
  intros Hl Hu Hth. revert opt theta.
  induction n as [|n IH]; intros opt theta; [done|].
  cbn [run_defined]. pose proof (Hth opt theta) as Hlen.
  destruct (getNextTheta2Evaluate Opt opt theta) as [opt1 theta1].
  cbn [snd] in Hlen.
  rewrite (penalty_defined_sized theta1 Hlen Hl Hu). apply IH.
Qed.

End RockstarFacts.

Lemma optimize_trace_witness :
  Rockstar.optimize Sample.float_arith Sample.line_walk Sample.tuner
    Sample.objective
  = Some
      ((Rockstar.optimize_spec Sample.float_arith Sample.line_walk
          Sample.tuner Sample.objective).1.1,
       (Rockstar.optimize_spec Sample.float_arith Sample.line_walk
          Sample.tuner Sample.objective).1.2,
       Rockstar.rounds_log Sample.float_arith Sample.objective
         (Rockstar.box_penalty Sample.float_arith Sample.tuner)
         (Rockstar.optimize_spec Sample.float_arith Sample.line_walk
            Sample.tuner Sample.objective).2)
  /\ Z.of_nat
       (length (Rockstar.optimize_spec Sample.float_arith Sample.line_walk
                  Sample.tuner Sample.objective).2)
     = Rockstar.eval_limit Sample.tuner
  /\ Z.of_nat
       (Rockstar.evaluations
          (Rockstar.rounds_log Sample.float_arith Sample.objective
             (Rockstar.box_penalty Sample.float_arith Sample.tuner)
             (Rockstar.optimize_spec Sample.float_arith Sample.line_walk
                Sample.tuner Sample.objective).2))
     = Rockstar.eval_limit Sample.tuner
  /\ (forall theta,
        Rockstar.in_box Sample.float_arith Sample.tuner theta ->
        Rockstar.box_penalty Sample.float_arith Sample.tuner theta
        = Rockstar.d_zero Sample.float_arith).
Proof.
  apply (optimize_trace Sample.float_arith Sample.line_walk Sample.tuner
           Sample.objective).
  - vm_compute. discriminate.
  - vm_compute. reflexivity.
Defined.

(** The run of the sample: the points 0.25, 1.0 and 1.75 against the
    box [0.5, 1.5]; the optimizer has been told 6.5, 1.0 and 8.0. *)
Example optimize_sample_run :
  Rockstar.optimize Sample.float_arith Sample.line_walk Sample.tuner
    Sample.objective
  = Some ((2.5%float, 15.5%float), [1.75%float],
          [Rockstar.EvFunc [0.25%float];
           Rockstar.EvUpdate 0.25%float [0.25%float];
           Rockstar.EvCost 6.5%float;
           Rockstar.EvFunc [1%float];
           Rockstar.EvUpdate 1%float [1%float];
           Rockstar.EvCost 1%float;
           Rockstar.EvFunc [1.75%float];
           Rockstar.EvUpdate 1.75%float [1.75%float];
           Rockstar.EvCost 8%float]).
Proof. vm_compute. reflexivity. Qed.

(** C8, as stated, fails.  With a negative limit the objective is
    evaluated no time, not [eval_limit] times; and with bounds shorter
    than [dim] the first round reads outside of them and [optimize] has
    no result. *)
Lemma optimize_trace_counterexample :
  (Rockstar.optimize Sample.float_arith Sample.line_walk
     (Rockstar.new Sample.float_arith 1 [0.25%float] (-3)) Sample.objective
   = Some ((0.25%float, 0%float), [0.25%float], [])
   /\ Rockstar.evaluations (double := float) [] = 0%nat
   /\ Rockstar.eval_limit
        (Rockstar.new Sample.float_arith 1 [0.25%float] (-3)) = -3)
  /\ Rockstar.optimize Sample.float_arith Sample.line_walk
       (Rockstar.setBoxConstraints Sample.tuner [] [1.5%float])
       Sample.objective = None.
Proof. vm_compute. repeat split; reflexivity. Qed.

(** * Further properties of the code *)

(** ** [Scores] *)

Lemma Scores_eq_1_iff (a b : Scores.t) : Scores.eq a b = 1 <-> a = b.
Proof.
  unfold Scores.eq. destruct a as [m e y], b as [m' e' y']; simpl. split.
  - intros H.
    destruct (m' =? m) eqn:Hm, (e' =? e) eqn:He, (y' =? y) eqn:Hy;
      try discriminate.
    apply Z.eqb_eq in Hm, He, Hy. by subst.
  - intros [= -> -> ->]. by rewrite !Z.eqb_refl.
Qed.

(** X1. [==] on [Scores] is an equivalence that holds of equal triples
    only: it returns 0 or 1, 1 exactly when both operands are the same
    triple, in either order; a copy is [==] to its original; and [!=]
    returns the other of 0 and 1. *)
Theorem Scores_eq_equivalence :
  (forall a b, Scores.eq a b = 1 <-> a = b)
  /\ (forall a, Scores.eq a a = 1)
  /\ (forall a b, Scores.eq a b = Scores.eq b a)
  /\ (forall a b c,
        Scores.eq a b = 1 -> Scores.eq b c = 1 -> Scores.eq a c = 1)
  /\ (forall s, Scores.copy s = s /\ Scores.eq (Scores.copy s) s = 1)
  /\ (forall a b,
        (Scores.eq a b = 0 \/ Scores.eq a b = 1)
        /\ Scores.ne a b = 1 - Scores.eq a b).
Proof.
  split; [exact Scores_eq_1_iff|]. split; [|split; [|split; [|split]]].
  - intros a. by apply Scores_eq_1_iff.
  - intros a b. unfold Scores.eq.
    by rewrite (Z.eqb_sym (Scores.mid b)), (Z.eqb_sym (Scores.end_ b)),
      (Z.eqb_sym (Scores.any b)).
  - intros a b c Hab%Scores_eq_1_iff Hbc%Scores_eq_1_iff.
    apply Scores_eq_1_iff. congruence.
  - intros [m e y]. split; [done|]. by apply Scores_eq_1_iff.
  - intros a b. unfold Scores.eq, Scores.ne.
    destruct (Scores.mid b =? Scores.mid a),
      (Scores.end_ b =? Scores.end_ a), (Scores.any b =? Scores.any a);
      simpl; lia.
Qed.

(** X2. Negating the three components negates the blend, for a scale
    within [0,128] and components below 2^23 in magnitude, where no
    operation overflows: the division truncates towards zero, so no
    rounding favours a sign. *)
Theorem blend_negate (MATERIAL_SCALE : list Z) (s : Scores.t)
    (materialLevel scale : Z) :
  0 <= materialLevel ->
  MATERIAL_SCALE !! Z.to_nat materialLevel = Some scale ->
  0 <= scale <= 128 ->
  Z.abs (Scores.mid s) < 2 ^ 23 ->
  Z.abs (Scores.end_ s) < 2 ^ 23 ->
  Z.abs (Scores.any s) < 2 ^ 23 ->
  Scores.blend MATERIAL_SCALE
    (Scores.mk (- Scores.mid s) (- Scores.end_ s) (- Scores.any s))
    materialLevel
  = Z.opp <$> Scores.blend MATERIAL_SCALE s materialLevel.
Proof.
  intros Hl Hlook Hs Hm He Ha.
  rewrite (blend_exact MATERIAL_SCALE s materialLevel scale Hl Hlook Hs)
    by by apply blend_in_range_small.
  rewrite (blend_exact MATERIAL_SCALE _ materialLevel scale Hl Hlook Hs)
    by (apply blend_in_range_small; simpl; rewrite ?Z.abs_opp; done).
  simpl. f_equal.
  rewrite !Z.mul_opp_l, !Z.quot_opp_l by lia. lia.
Qed.

Lemma blend_negate_witness :
  Scores.blend [0; 3; 64; 128] (Scores.mk (- 37) (- -12) (- 5)) 2
  = Z.opp <$> Scores.blend [0; 3; 64; 128] (Scores.mk 37 (-12) 5) 2.
Proof.
  apply (blend_negate [0; 3; 64; 128] (Scores.mk 37 (-12) 5) 2 64);
    first [reflexivity | simpl; lia].
Defined.

(** X3. For a scale within [0,128] and components below 2^23 in
    magnitude the blend is monotone: raising any of the three
    components never lowers it. *)
Theorem blend_monotone (MATERIAL_SCALE : list Z) (s s' : Scores.t)
    (materialLevel scale r r' : Z) :
  0 <= materialLevel ->
  MATERIAL_SCALE !! Z.to_nat materialLevel = Some scale ->
  0 <= scale <= 128 ->
  Z.abs (Scores.mid s) < 2 ^ 23 -> Z.abs (Scores.mid s') < 2 ^ 23 ->
  Z.abs (Scores.end_ s) < 2 ^ 23 -> Z.abs (Scores.end_ s') < 2 ^ 23 ->
  Z.abs (Scores.any s) < 2 ^ 23 -> Z.abs (Scores.any s') < 2 ^ 23 ->
  Scores.mid s <= Scores.mid s' ->
  Scores.end_ s <= Scores.end_ s' ->
  Scores.any s <= Scores.any s' ->
  Scores.blend MATERIAL_SCALE s materialLevel = Some r ->
  Scores.blend MATERIAL_SCALE s' materialLevel = Some r' ->
  r <= r'.
Proof.
  intros Hl Hlook Hs Hm Hm' He He' Ha Ha' Lm Le La.
  rewrite (blend_exact MATERIAL_SCALE s materialLevel scale Hl Hlook Hs)
    by by apply blend_in_range_small.
  rewrite (blend_exact MATERIAL_SCALE s' materialLevel scale Hl Hlook Hs)
    by by apply blend_in_range_small.
  intros [= <-] [= <-].
  pose proof (Z.quot_le_mono (Scores.mid s * scale) (Scores.mid s' * scale)
                128 ltac:(lia) ltac:(nia)).
  pose proof (Z.quot_le_mono (Scores.end_ s * (128 - scale))
                (Scores.end_ s' * (128 - scale)) 128 ltac:(lia) ltac:(nia)).
  lia.
Qed.

Lemma blend_monotone_witness : 14 <= 17.
Proof.
  apply (blend_monotone [0; 3; 64; 128] (Scores.mk 30 (-12) 5)
           (Scores.mk 37 (-12) 5) 2 64 14 17);
    first [reflexivity | simpl; lia].
Defined.

(** X4. For a scale within [0,128] and components below 2^23 in
    magnitude, between the two ends the blend stays within one unit of
    the interval spanned by [any + mid] and [any + end]. *)
Theorem blend_between (MATERIAL_SCALE : list Z) (s : Scores.t)
    (materialLevel scale r : Z) :
  0 <= materialLevel ->
  MATERIAL_SCALE !! Z.to_nat materialLevel = Some scale ->
  0 <= scale <= 128 ->
  Z.abs (Scores.mid s) < 2 ^ 23 ->
  Z.abs (Scores.end_ s) < 2 ^ 23 ->
  Z.abs (Scores.any s) < 2 ^ 23 ->
  Scores.blend MATERIAL_SCALE s materialLevel = Some r ->
  Scores.any s + Z.min (Scores.mid s) (Scores.end_ s) - 1 <= r
  <= Scores.any s + Z.max (Scores.mid s) (Scores.end_ s) + 1.
Proof.
  intros Hl Hlook Hs Hm He Ha.
  rewrite (blend_exact MATERIAL_SCALE s materialLevel scale Hl Hlook Hs)
    by by apply blend_in_range_small.
  intros [= <-].
  destruct s as [m e a]; simpl.
  pose proof (Z.quot_rem' (m * scale) 128) as Hqm.
  pose proof (Z.quot_rem' (e * (128 - scale)) 128) as Hqe.
  pose proof (Z.rem_bound_abs (m * scale) 128 ltac:(lia)) as Hmb.
  pose proof (Z.rem_bound_abs (e * (128 - scale)) 128 ltac:(lia)) as Heb.
  nia.
Qed.

Lemma blend_between_witness :
  5 + Z.min 37 (-12) - 1 <= 17 <= 5 + Z.max 37 (-12) + 1.
Proof.
  apply (blend_between [0; 3; 64; 128] (Scores.mk 37 (-12) 5) 2 64 17);
    first [reflexivity | simpl; lia].
Defined.

(** X5. For a scale within [0,128] and values below 2^23 in magnitude,
    a value that is put into both [mid] and [end] comes out of the
    blend whole exactly when 128 divides its product with the scale;
    otherwise the two truncations lose one point towards zero. *)
Theorem blend_equal_components (MATERIAL_SCALE : list Z)
    (materialLevel scale v a : Z) :
  0 <= materialLevel ->
  MATERIAL_SCALE !! Z.to_nat materialLevel = Some scale ->
  0 <= scale <= 128 ->
  Z.abs v < 2 ^ 23 ->
  Z.abs a < 2 ^ 23 ->
  Scores.blend MATERIAL_SCALE (Scores.mk v v a) materialLevel
  = Some (if decide (Z.rem (v * scale) 128 = 0)
          then a + v else a + v - Z.sgn v).
Proof.
  intros Hl Hlook Hs Hv Ha.
  rewrite (blend_exact MATERIAL_SCALE _ materialLevel scale Hl Hlook Hs)
    by by apply blend_in_range_small.
  simpl. f_equal. clear Hv Ha.
  pose proof (Z.quot_rem' (v * scale) 128) as Hq1.
  pose proof (Z.quot_rem' (v * (128 - scale)) 128) as Hq2.
  destruct (Z_le_gt_dec 0 v) as [Hv | Hv].
  - pose proof (Z.rem_bound_pos (v * scale) 128 ltac:(nia) ltac:(lia)).
    pose proof (Z.rem_bound_pos (v * (128 - scale)) 128 ltac:(nia) ltac:(lia)).
    case_decide; [lia|].
    assert (Z.sgn v = 1) by (apply Z.sgn_pos; nia). lia.
  - pose proof (Z.rem_bound_pos (- (v * scale)) 128
                  ltac:(nia) ltac:(lia)) as H1.
    pose proof (Z.rem_bound_pos (- (v * (128 - scale))) 128
                  ltac:(nia) ltac:(lia)) as H2.
    rewrite Z.rem_opp_l in H1, H2 by lia.
    case_decide; [lia|].
    assert (Z.sgn v = -1) by (apply Z.sgn_neg; lia). lia.
Qed.

Lemma blend_equal_components_witness :
  Scores.blend [0; 3; 64; 128] (Scores.mk 1 1 10) 2 = Some 10.
Proof.
  exact (blend_equal_components [0; 3; 64; 128] 2 64 1 10
           ltac:(lia) eq_refl ltac:(lia) ltac:(simpl; lia) ltac:(simpl; lia)).
Defined.

Lemma blend_fits_int32_witness :
  int32_ok (30000 * 64) /\ int32_ok (-30000 * (128 - 64))
  /\ int32_ok (7 + (30000 * 64) ÷ 128)
  /\ int32_ok (7 + (30000 * 64) ÷ 128 + (-30000 * (128 - 64)) ÷ 128).
Proof.
  apply (blend_fits_int32 (Scores.mk 30000 (-30000) 7) 64); simpl; lia.
Defined.

(** ** [mateScore], again *)

(** X7. With a threshold that is not negative, a score other than
    [INVALID_SCORE] is a mate score exactly when its magnitude reaches
    [TABLEBASE_WIN]; and a score and its negation are classified alike
    when neither is [INVALID_SCORE]. *)
Theorem mateScore_magnitude (INVALID_SCORE TABLEBASE_WIN score : score_t) :
  0 <= TABLEBASE_WIN ->
  (Scoring.mateScore INVALID_SCORE TABLEBASE_WIN score = true <->
     score <> INVALID_SCORE /\ TABLEBASE_WIN <= Z.abs score)
  /\ (score <> INVALID_SCORE -> - score <> INVALID_SCORE ->
      Scoring.mateScore INVALID_SCORE TABLEBASE_WIN (- score)
      = Scoring.mateScore INVALID_SCORE TABLEBASE_WIN score).
Proof.
  intros Htw. unfold Scoring.mateScore. split.
  - rewrite andb_true_iff, orb_true_iff, negb_true_iff, Z.eqb_neq,
      Z.geb_le, Z.leb_le. lia.
  - intros Hs Hn.
    destruct (Z.eqb_spec score INVALID_SCORE) as [|_]; [done|].
    destruct (Z.eqb_spec (- score) INVALID_SCORE) as [|_]; [done|].
    simpl. rewrite orb_comm. f_equal.
    + destruct (Z.leb_spec (- score) (- TABLEBASE_WIN)),
        (Z.geb_spec score TABLEBASE_WIN); lia.
    + destruct (Z.geb_spec (- score) TABLEBASE_WIN),
        (Z.leb_spec score (- TABLEBASE_WIN)); lia.
Qed.

Lemma mateScore_magnitude_witness :
  (Scoring.mateScore (-32767) 31000 (-31500) = true <->
     -31500 <> -32767 /\ 31000 <= Z.abs (-31500))
  /\ (-31500 <> -32767 -> - -31500 <> -32767 ->
      Scoring.mateScore (-32767) 31000 (- -31500)
      = Scoring.mateScore (-32767) 31000 (-31500)).
Proof. apply (mateScore_magnitude (-32767) 31000 (-31500)). lia. Defined.

(** ** The flags of [PawnDetail] *)

Lemma all_flags_land (x F : Z) :
  x ∈ Scoring.PawnDetail.all_flags -> F ∈ Scoring.PawnDetail.all_flags ->
  Z.land x F = (if decide (x = F) then F else 0) /\ Z.land x 511 = x.
Proof.
  rewrite !list_elem_of_In. unfold Scoring.PawnDetail.all_flags. simpl.
  intros Hx HF.
  repeat (destruct Hx as [<- | Hx]; [|]); try done;
    repeat (destruct HF as [<- | HF]; [|]); try done;
    split; reflexivity.
Qed.

(** X8. The nine flags are separate bits of the 16 bit field: whatever
    flags are combined with [|], the result fits the field, and [&]
    with a flag gives that flag if it is among them and 0 if not. *)
Theorem PawnDetail_flags_independent (l : list Z) (F : Z) :
  Forall (fun x => x ∈ Scoring.PawnDetail.all_flags) l ->
  F ∈ Scoring.PawnDetail.all_flags ->
  0 <= foldr Z.lor 0 l < 2 ^ 16
  /\ Z.land (foldr Z.lor 0 l) F = (if decide (F ∈ l) then F else 0).
Proof.
  intros Hl HF.
  assert (Z.land (foldr Z.lor 0 l) 511 = foldr Z.lor 0 l
          /\ Z.land (foldr Z.lor 0 l) F = (if decide (F ∈ l) then F else 0))
    as [Hmask Hland].
  { induction Hl as [|x l Hx Hl IH]; [done|]. destruct IH as [IHm IHl].
    destruct (all_flags_land x F Hx HF) as [HxF Hx511].
    simpl. rewrite !Z.land_lor_distr_l, IHm, IHl, Hx511, HxF.
    split; [done|].
    destruct (decide (x = F)) as [->|Hne].
    - destruct (decide (F ∈ F :: l)) as [_|Hn];
        [|exfalso; apply Hn, list_elem_of_here].
      case_decide; [apply Z.lor_diag | apply Z.lor_0_r].
    - rewrite Z.lor_0_l.
      destruct (decide (F ∈ l)) as [H1|H1],
        (decide (F ∈ x :: l)) as [H2|H2]; try done.
      + exfalso. apply H2. by apply list_elem_of_further.
      + apply elem_of_cons in H2 as [->|?]; done. }
  split; [|exact Hland].
  rewrite <- Hmask. change 511 with (Z.ones 9).
  rewrite Z.land_ones by lia.
  pose proof (Z.mod_pos_bound (foldr Z.lor 0 l) (2 ^ 9) ltac:(lia)). lia.
Qed.

Lemma PawnDetail_flags_independent_witness :
  0 <= foldr Z.lor 0 [Scoring.PawnDetail.PASSED;
                      Scoring.PawnDetail.ADJACENT_PASSER] < 2 ^ 16
  /\ Z.land (foldr Z.lor 0 [Scoring.PawnDetail.PASSED;
                            Scoring.PawnDetail.ADJACENT_PASSER])
            Scoring.PawnDetail.WEAK
     = (if decide (Scoring.PawnDetail.WEAK
                   ∈ [Scoring.PawnDetail.PASSED;
                      Scoring.PawnDetail.ADJACENT_PASSER])
        then Scoring.PawnDetail.WEAK else 0).
Proof.
  apply (PawnDetail_flags_independent
           [Scoring.PawnDetail.PASSED; Scoring.PawnDetail.ADJACENT_PASSER]
           Scoring.PawnDetail.WEAK).
  - repeat constructor.
  - unfold Scoring.PawnDetail.all_flags. repeat constructor.
Defined.

(** ** [outpost_defenders] *)

Lemma bitCount_pos_positive (p : positive) : 0 < bitCount_pos p.
Proof. induction p; cbn [bitCount_pos]; lia. Qed.

Lemma bitCount_N_nonneg (n : N) : 0 <= bitCount_N n.
Proof. destruct n; simpl; [lia|]. pose proof (bitCount_pos_positive p). lia. Qed.

Lemma bitCount_Ndouble (n : N) : bitCount_N (Pos.Ndouble n) = bitCount_N n.
Proof. by destruct n. Qed.

Lemma bitCount_Nsucc_double (n : N) :
  bitCount_N (Pos.Nsucc_double n) = 1 + bitCount_N n.
Proof. by destruct n. Qed.

Lemma bitCount_pos_land (p q : positive) :
  bitCount_N (Pos.land p q) <= bitCount_pos p.
Proof.
  revert q. induction p as [p IH | p IH |]; intros [q | q |];
    cbn [bitCount_pos];
    try specialize (IH q); try pose proof (bitCount_pos_positive p).
  - change (Pos.land p~1 q~1) with (Pos.Nsucc_double (Pos.land p q)).
    rewrite bitCount_Nsucc_double. lia.
  - change (Pos.land p~1 q~0) with (Pos.Ndouble (Pos.land p q)).
    rewrite bitCount_Ndouble. lia.
  - change (Pos.land p~1 1) with (Npos 1). cbn [bitCount_N bitCount_pos]. lia.
  - change (Pos.land p~0 q~1) with (Pos.Ndouble (Pos.land p q)).
    by rewrite bitCount_Ndouble.
  - change (Pos.land p~0 q~0) with (Pos.Ndouble (Pos.land p q)).
    by rewrite bitCount_Ndouble.
  - change (Pos.land p~0 1) with N0. cbn [bitCount_N]. lia.
  - change (Pos.land 1 q~1) with (Npos 1). cbn [bitCount_N bitCount_pos]. lia.
  - change (Pos.land 1 q~0) with N0. cbn [bitCount_N]. lia.
  - change (Pos.land 1 1) with (Npos 1). cbn [bitCount_N bitCount_pos]. lia.
Qed.

Lemma bitCountOpt_land_le (a b : Bitboard) :
  0 <= a -> 0 <= b -> 0 <= bitCountOpt (Z.land a b) <= bitCountOpt a.
Proof.
  intros Ha Hb. destruct a as [|p|p], b as [|q|q]; try lia.
  - done.
  - done.
  - rewrite Z.land_0_r. cbn [bitCountOpt].
    pose proof (bitCount_pos_positive p). lia.
  - change (Z.land (Z.pos p) (Z.pos q)) with (Z.of_N (Pos.land p q)).
    pose proof (bitCount_pos_land p q) as Hle.
    pose proof (bitCount_N_nonneg (Pos.land p q)) as Hge.
    cbn [bitCountOpt]. by destruct (Pos.land p q).
Qed.

(** X9. For bitboards (masks that are not negative) [outpost_defenders]
    is at least 0, at most the number of squares of the attack mask and
    at most the number of pawns of the side; it is 0 for a side without
    pawns. *)
Theorem outpost_defenders_bounds
    (pawn_attacks : Square -> ColorType -> Bitboard)
    (pawn_bits : ColorType -> Bitboard) (sq : Square) (side : ColorType) :
  0 <= pawn_attacks sq side -> 0 <= pawn_bits side ->
  0 <= Scoring.outpost_defenders pawn_attacks pawn_bits sq side
    <= Z.min (bitCountOpt (pawn_attacks sq side)) (bitCountOpt (pawn_bits side))
  /\ (pawn_bits side = 0 ->
      Scoring.outpost_defenders pawn_attacks pawn_bits sq side = 0).
Proof.
  intros Ha Hp. unfold Scoring.outpost_defenders. split.
  - pose proof (bitCountOpt_land_le _ _ Ha Hp).
    pose proof (bitCountOpt_land_le _ _ Hp Ha) as H2.
    rewrite Z.land_comm in H2. lia.
  - intros ->. by rewrite Z.land_0_r.
Qed.

Lemma outpost_defenders_bounds_witness :
  0 <= Scoring.outpost_defenders (fun _ _ => 2 ^ 19 + 2 ^ 21)
         (fun _ => 2 ^ 19 + 2 ^ 8 + 2 ^ 9) 28 White
    <= Z.min (bitCountOpt (2 ^ 19 + 2 ^ 21)) (bitCountOpt (2 ^ 19 + 2 ^ 8 + 2 ^ 9))
  /\ (2 ^ 19 + 2 ^ 8 + 2 ^ 9 = 0 ->
      Scoring.outpost_defenders (fun _ _ => 2 ^ 19 + 2 ^ 21)
        (fun _ => 2 ^ 19 + 2 ^ 8 + 2 ^ 9) 28 White = 0).
Proof.
  apply (outpost_defenders_bounds (fun _ _ => 2 ^ 19 + 2 ^ 21)
           (fun _ => 2 ^ 19 + 2 ^ 8 + 2 ^ 9) 28 White); lia.
Defined.

Example outpost_defenders_sample :
  Scoring.outpost_defenders (fun _ _ => 2 ^ 19 + 2 ^ 21)
    (fun _ => 2 ^ 19 + 2 ^ 8 + 2 ^ 9) 28 White = 1.
Proof. reflexivity. Qed.

(** ** The wrapper's constructor, its box and its loop *)

Section RockstarMore.
Import Rockstar.
Context {double : Type} (A : Arith double) (Opt : Optimizer double).
Variable func : list double -> double.

(** X10. With a limit that is zero or negative the loop is not entered:
    the objective and the callback are never called, no cost is
    reported, and the point is left at the initial one, whatever the
    box and the dimension are. *)
Theorem optimize_no_rounds (r : Rockstar.t double) :
  eval_limit r <= 0 ->
  exists opt, optimize A Opt r func = Some (opt, initial_theta r, []).
Proof.
  intros Hlimit. unfold optimize.
  replace (Z.to_nat (eval_limit r)) with 0%nat by lia.
  eexists. reflexivity.
Qed.

(** The inner loop stops at the first index past the lower bounds. *)
Lemma penalty_loop_short_lower (r : Rockstar.t double) (theta : list double)
    (n i : nat) (acc : double) :
  (i <= length (lower r) < i + n)%nat ->
  penalty_loop A r theta i n acc = None.
Proof.
  revert i acc. induction n as [|n IH]; intros i acc Hi; [lia|].
  cbn [penalty_loop].
  destruct (decide (i = length (lower r))) as [->|Hne].
  - unfold penalty_step.
    rewrite (lookup_ge_None_2 (lower r) (length (lower r))) by lia.
    by destruct (theta !! length (lower r)).
  - destruct (penalty_step A r theta i acc) as [p|]; [|done].
    cbn [mbind option_bind]. apply IH. lia.
Qed.

(** X11. [setBoxConstraints] stores the two vectors as they are passed,
    whatever their sizes, and changes nothing else; with fewer lower
    bounds than [dim] and a positive limit, the first round of
    [optimize] reads past the end of the lower bounds and has no
    result. *)
Theorem setBoxConstraints_unchecked (r : Rockstar.t double)
    (lo up : list double) :
  (length lo < Z.to_nat (dim r))%nat ->
  0 < eval_limit r ->
  (lower (setBoxConstraints r lo up) = lo
   /\ upper (setBoxConstraints r lo up) = up
   /\ dim (setBoxConstraints r lo up) = dim r
   /\ eval_limit (setBoxConstraints r lo up) = eval_limit r
   /\ initial_theta (setBoxConstraints r lo up) = initial_theta r
   /\ options (setBoxConstraints r lo up) = options r)
  /\ optimize A Opt (setBoxConstraints r lo up) func = None.
Proof.
  intros Hlen Hlimit. split; [done|].
  unfold optimize. cbn [eval_limit setBoxConstraints].
  destruct (Z.to_nat (eval_limit r)) as [|n] eqn:Hn; [lia|].
  cbn [optimize_loop]. unfold iteration at 1.
  destruct (getNextTheta2Evaluate Opt _ _) as [opt1 theta1].
  cbn [eval].
  rewrite penalty_loop_short_lower; [done|].
  cbn [lower dim setBoxConstraints]. lia.
Qed.

(** The rounds depend on the penalty only at the points proposed. *)
Lemma rounds_spec_ext (p1 p2 : list double -> double) (m n : nat)
    (opt : optimizer Opt) (theta : list double) :
  (forall opt th, length (getNextTheta2Evaluate Opt opt th).2 = m) ->
  (forall th, length th = m -> p1 th = p2 th) ->
  rounds_spec A Opt func p1 n opt theta = rounds_spec A Opt func p2 n opt theta.
Proof.
  intros Hth Hp. revert opt theta.
  induction n as [|n IH]; intros opt theta; [done|].
  cbn [rounds_spec]. pose proof (Hth opt theta) as Hlen.
  destruct (getNextTheta2Evaluate Opt opt theta) as [opt1 theta1].
  cbn [snd] in Hlen. by rewrite (Hp theta1 Hlen), IH.
Qed.

Lemma rounds_spec_sized (p : list double -> double) (m n : nat)
    (opt : optimizer Opt) (theta : list double) :
  (forall opt th, length (getNextTheta2Evaluate Opt opt th).2 = m) ->
  Forall (fun th => length th = m) (rounds_spec A Opt func p n opt theta).2.
Proof.
  intros Hth. revert opt theta.
  induction n as [|n IH]; intros opt theta; [by constructor|].
  cbn [rounds_spec]. pose proof (Hth opt theta) as Hlen.
  destruct (getNextTheta2Evaluate Opt opt theta) as [opt1 theta1].
  cbn [snd] in *. constructor; [done | apply IH].
Qed.

Lemma rounds_log_ext (p1 p2 : list double -> double)
    (thetas : list (list double)) :
  Forall (fun th => p1 th = p2 th) thetas ->
  rounds_log A func p1 thetas = rounds_log A func p2 thetas.
Proof.
  intros Hall. unfold rounds_log. f_equal.
  apply Forall_fmap_ext_1. eapply Forall_impl; [exact Hall|].
  intros th Hp. unfold round_events. by rewrite Hp.
Qed.

Local Abbreviation default_step :=
  (fun acc th =>
     if d_lt A th (d_zero A) then
       d_add A acc (d_mul A (d_pow2 A (d_sub A (d_zero A) th)) (lit_100 A))
     else if d_gt A th (d_one A) then
       d_add A acc (d_mul A (d_pow2 A (d_sub A th (d_one A))) (lit_100 A))
     else acc).

(** Under the box and the factor of the constructor the violations of
    the components add up to the default penalty. *)
Lemma violations_unit_box (r : Rockstar.t double) (theta : list double)
    (m k i : nat) (acc : double) :
  lower r = replicate m (d_zero A) ->
  upper r = replicate m (d_one A) ->
  constraint_penalty (options r) = lit_100 A ->
  (i + k <= m)%nat -> (i + k <= length theta)%nat ->
  foldl (d_add A) acc (omap (violation A r theta) (seq i k))
  = foldl default_step acc (take k (drop i theta)).
Proof.
  intros Hl Hu Hc. revert i acc.
  induction k as [|k IH]; intros i acc Hm Ht; [done|].
  destruct (lookup_lt_is_Some_2 theta i ltac:(lia)) as [th Hth].
  rewrite (drop_S _ _ _ Hth). cbn [seq omap list_omap take foldl].
  rewrite <- IH by lia.
  unfold violation at 1. rewrite Hth, Hl, Hu, Hc.
  rewrite !lookup_replicate_2 by lia. simpl.
  by destruct (d_lt A th (d_zero A)), (d_gt A th (d_one A)).
Qed.

Lemma box_penalty_new (d : Z) (x0 : list double) (limit : Z)
    (theta : list double) :
  length theta = Z.to_nat d ->
  box_penalty A (new A d x0 limit) theta = default_box_penalty A theta.
Proof.
  intros Hlen. unfold box_penalty, default_box_penalty.
  rewrite (violations_unit_box _ theta (Z.to_nat d)); cbn [new dim lower upper options constraint_penalty];
    try done; try lia.
  by rewrite drop_0, take_ge by lia.
Qed.

(** X12. After the constructor alone the box has [d] components, 0.0
    to 1.0 each, so that [optimize] runs to its end for any optimizer
    that proposes points of [d] components: the optimizer is built from
    the initial point, the deviations 1.0 * 0.05 and the exponent 2, and
    in each of the [eval_limit] rounds it is told the objective plus the
    default penalty, the squared distance below 0.0 or above 1.0 of each
    component, times 100. *)
Theorem optimize_after_new (d : Z) (x0 : list double) (limit : Z) :
  0 <= limit ->
  (forall opt th,
     length (getNextTheta2Evaluate Opt opt th).2 = Z.to_nat d) ->
  optimize A Opt (new A d x0 limit) func
  = Some
      ((rounds_spec A Opt func (default_box_penalty A) (Z.to_nat limit)
          (optimizer_new Opt x0
             ((fun x => d_mul A x (lit_0_05 A))
                <$> replicate (Z.to_nat d) (d_one A))
             (lit_2 A))
          x0).1.1,
       (rounds_spec A Opt func (default_box_penalty A) (Z.to_nat limit)
          (optimizer_new Opt x0
             ((fun x => d_mul A x (lit_0_05 A))
                <$> replicate (Z.to_nat d) (d_one A))
             (lit_2 A))
          x0).1.2,
       rounds_log A func (default_box_penalty A)
         (rounds_spec A Opt func (default_box_penalty A) (Z.to_nat limit)
            (optimizer_new Opt x0
               ((fun x => d_mul A x (lit_0_05 A))
                  <$> replicate (Z.to_nat d) (d_one A))
               (lit_2 A))
            x0).2)
  /\ Z.of_nat
       (length
          (rounds_spec A Opt func (default_box_penalty A) (Z.to_nat limit)
             (optimizer_new Opt x0
                ((fun x => d_mul A x (lit_0_05 A))
                   <$> replicate (Z.to_nat d) (d_one A))
                (lit_2 A))
             x0).2)
     = limit.
Proof.
  intros Hlimit Hth. rewrite rounds_spec_length. split; [|lia].
  rewrite optimize_spec_eq.
  unfold optimize_defined, optimize_spec, initial_optimizer.
  cbn [new dim eval_limit initial_theta options initialSd initial_exp].
  rewrite run_defined_sized.
  - rewrite (rounds_spec_ext (box_penalty A (new A d x0 limit))
               (default_box_penalty A) (Z.to_nat d)); try done.
    + f_equal. f_equal. apply rounds_log_ext.
      eapply Forall_impl; [by apply (rounds_spec_sized _ (Z.to_nat d))|].
      intros th Hlen. by apply box_penalty_new.
    + intros th Hlen. by apply box_penalty_new.
  - cbn [new dim lower]. by rewrite length_replicate.
  - cbn [new dim upper]. by rewrite length_replicate.
  - intros opt th. cbn [new dim]. by rewrite Hth.
Qed.

End RockstarMore.

Lemma optimize_no_rounds_witness :
  exists opt,
    Rockstar.optimize Sample.float_arith Sample.line_walk
      (Rockstar.new Sample.float_arith 1 [0.25%float] (-3)) Sample.objective
    = Some (opt, [0.25%float], []).
Proof.
  apply (optimize_no_rounds Sample.float_arith Sample.line_walk
           Sample.objective
           (Rockstar.new Sample.float_arith 1 [0.25%float] (-3))).
  vm_compute. discriminate.
Defined.

Lemma setBoxConstraints_unchecked_witness :
  Rockstar.optimize Sample.float_arith Sample.line_walk
    (Rockstar.setBoxConstraints Sample.tuner [] [1.5%float])
    Sample.objective = None.
Proof.
  apply (setBoxConstraints_unchecked Sample.float_arith Sample.line_walk
           Sample.objective Sample.tuner [] [1.5%float]).
  - vm_compute. lia.
  - reflexivity.
Defined.

Lemma optimize_after_new_witness :
  Rockstar.optimize Sample.float_arith Sample.line_walk
    (Rockstar.new Sample.float_arith 1 [0.25%float] 3) Sample.objective
  = Some ((2.5%float, 59.25%float), [1.75%float],
          [Rockstar.EvFunc [0.25%float];
           Rockstar.EvUpdate 0.25%float [0.25%float];
           Rockstar.EvCost 0.25%float;
           Rockstar.EvFunc [1%float];
           Rockstar.EvUpdate 1%float [1%float];
           Rockstar.EvCost 1%float;
           Rockstar.EvFunc [1.75%float];
           Rockstar.EvUpdate 1.75%float [1.75%float];
           Rockstar.EvCost 58%float]).
Proof.
  exact (proj1 (optimize_after_new Sample.float_arith Sample.line_walk
                  Sample.objective 1 [0.25%float] 3 ltac:(lia)
                  (fun opt th => eq_refl))).
Defined.
